(** * The ClickHouse client facade (src/index.ts): statement formatting,
      parameter merging and the sequencing of encoder and connection calls.

    The development embeds the pure helpers of the client ([removeTrailingSemi],
    [formatQuery], [getInsertQuery], [withClientQueryParams]) as functions and
    the operations of [ClickHouseClient] as computations in a small
    state-and-exception monad whose state records every call made to the
    injected collaborators (values encoder, connection, result-set factory). *)

From Stdlib Require Import ZArith Ascii String List Lia.
From stdpp Require Import base option strings gmap.

(** ** JavaScript strings

    A JavaScript string is a sequence of code units; the model keeps the
    code units below 256 ([ascii]).  [query.length] is [String.length],
    [query[i]] is [String.get i query] and [query.slice(0, k)] with
    [0 <= k <= query.length] is [String.substring 0 k query]. *)

Module JS.

(** The white space and line terminator code units that
    [String.prototype.trim] strips, among those below 256:
    TAB, LF, VT, FF, CR, SPACE and NO-BREAK SPACE. *)
Definition isWhiteSpace (c : ascii) : bool :=
  let n := nat_of_ascii c in
  ((9 <=? n) && (n <=? 13)) || (n =? 32) || (n =? 160).

Fixpoint trimStart (s : string) : string :=
  match s with
  | EmptyString => EmptyString
  | String c s' => if isWhiteSpace c then trimStart s' else s
  end.

Fixpoint trimEnd (s : string) : string :=
  match s with
  | EmptyString => EmptyString
  | String c s' =>
      match trimEnd s' with
      | EmptyString => if isWhiteSpace c then EmptyString else String c EmptyString
      | r => String c r
      end
  end.

(** [s.trim()] *)
Definition trim (s : string) : string := trimEnd (trimStart s).

(** [xs.join(sep)] on an array of strings. *)
Fixpoint join (sep : string) (xs : list string) : string :=
  match xs with
  | [] => ""
  | [x] => x
  | x :: rest => x +:+ sep +:+ join sep rest
  end.

(** [a ?? b] where [undefined] is [None]. *)
Definition nullish {A} (a : option A) (b : A) : A :=
  match a with Some x => x | None => b end.

(** [a ?? b] where both sides may be [undefined]. *)
Definition nullish_opt {A} (a b : option A) : option A :=
  match a with Some x => Some x | None => b end.

(** [a || b] on an optional string: [undefined] and the empty string are
    the falsy values. *)
Definition or_string (a : option string) (b : string) : string :=
  match a with
  | None => b
  | Some EmptyString => b
  | Some s => s
  end.

(** [{...a, ...b}] on objects used as maps: the keys of [b] win. *)
Definition spread {V} (a b : gmap string V) : gmap string V := b ∪ a.

End JS.

(** ** Statement formatter *)

Definition semi : ascii := ";"%char.

(** The [for] loop of [removeTrailingSemi]: [i] counts down from
    [query.length]; the loop breaks at the first [i] with
    [query[i - 1] !== ';'] and assigns it to [lastNonSemiIdx]. *)
Fixpoint scanTrailingSemi (query : string) (i lastNonSemiIdx : nat) : nat :=
  match i with
  | O => lastNonSemiIdx
  | S j =>
      if bool_decide (String.get j query = Some semi)
      then scanTrailingSemi query j lastNonSemiIdx
      else i
  end.

Definition removeTrailingSemi (query : string) : string :=
  let lastNonSemiIdx :=
    scanTrailingSemi query (String.length query) (String.length query) in
  if bool_decide (lastNonSemiIdx = String.length query)
  then query
  else String.substring 0 lastNonSemiIdx query.

(** The literal [' \nFORMAT '] of [formatQuery]: a space, a line feed and
    the clause marker. *)
Definition FORMAT_CLAUSE : string :=
  String " "%char (String "010"%char "FORMAT ").

Definition formatQuery (query format : string) : string :=
  let query := JS.trim query in
  let query := removeTrailingSemi query in
  (query +:+ FORMAT_CLAUSE) +:+ format.

(** ** Data model *)

(** The types that the client only passes around.  They are declared in
    modules the facade imports ([@clickhouse/client-common],
    [./clickhouse_types], [./config], [./result]) and are kept abstract:
    the generic [Stream] of the class, the rows [T] of an array dataset,
    the JSON-object datasets, the payload produced by the encoder, setting
    values, bound parameter values, [AbortSignal], response header values,
    the ClickHouse summary, thrown values, the result set built by
    [makeResultSet], and the state of everything outside the client that the
    collaborators may read or change. *)
Class Types := {
  Stream : Type;
  Row : Type;
  InputJSON : Type;
  Encoded : Type;
  SettingValue : Type;
  Unknown : Type;
  AbortSignal : Type;
  HeaderValue : Type;
  Summary : Type;
  Error : Type;
  ResultSet : Type;
  World : Type;
}.

(** [string | Array<string>] *)
Inductive Role :=
  | RoleSingle (role : string)
  | RoleList (roles : list string).

(** [{ username; password } | { access_token }] *)
Inductive Auth :=
  | AuthCredentials (username password : string)
  | AuthAccessToken (access_token : string).

Record OpenTelemetryHeaders := {
  traceparent : option string;
  tracestate : option string;
}.

(** [NonEmptyArray<string> | InsertColumnsExcept].  The type promises
    non-empty arrays; [getInsertQuery] nevertheless tests the lengths, so
    the lists are unconstrained here. *)
Inductive InsertColumns :=
  | ColumnsArray (columns : list string)
  | ColumnsExcept (except : list string).

Section DataModel.
Context `{T : Types}.

Record BaseQueryParams := {
  clickhouse_settings : option (gmap string SettingValue);
  query_params : option (gmap string Unknown);
  abort_signal : option AbortSignal;
  query_id : option string;
  session_id : option string;
  role : option Role;
  auth : option Auth;
  opentelemetry_headers : option OpenTelemetryHeaders;
}.

Record QueryParams := {
  qp_base : BaseQueryParams;
  qp_query : string;
  qp_format : option string;
}.

(** [ExecParams | ExecParamsWithValues<Stream>]; [ep_values] is [Some]
    exactly when ['values' in params]. *)
Record ExecParams := {
  ep_base : BaseQueryParams;
  ep_query : string;
  ep_decompress_response_stream : option bool;
  ep_values : option Stream;
}.

(** [CommandParams = ExecParams]; [command] reads the statement and the
    base parameters only. *)
Definition CommandParams := ExecParams.

(** [InsertValues<Stream, T>]: only the first variant is an array. *)
Inductive InsertValues :=
  | ValuesArray (rows : list Row)
  | ValuesStream (stream : Stream)
  | ValuesJSON (obj : InputJSON).

Record InsertParams := {
  ip_base : BaseQueryParams;
  ip_table : string;
  ip_values : InsertValues;
  ip_format : option string;
  ip_columns : option InsertColumns;
}.

(** *** Requests received by the connection *)

(** [{ query, ...queryParams }] *)
Record ConnBaseQueryParams := {
  cq_query : string;
  cq_params : BaseQueryParams;
}.

(** [{ query, values, decompress_response_stream, ...queryParams }] *)
Record ConnExecParams := {
  ce_query : string;
  ce_values : option Stream;
  ce_decompress_response_stream : bool;
  ce_params : BaseQueryParams;
}.

(** [{ query, values, ...queryParams }] *)
Record ConnInsertParams := {
  ci_query : string;
  ci_values : Encoded;
  ci_params : BaseQueryParams;
}.

(** *** Results *)

Record ConnQueryResult := {
  qr_stream : Stream;
  qr_query_id : string;
  qr_response_headers : gmap string HeaderValue;
}.

(** [ConnCommandResult] and [ConnInsertResult] *)
Record ConnCommandResult := {
  cr_query_id : string;
  cr_summary : option Summary;
  cr_response_headers : gmap string HeaderValue;
}.

Record ConnExecResult := {
  er_stream : Stream;
  er_query_id : string;
  er_summary : option Summary;
  er_response_headers : gmap string HeaderValue;
}.

(** [{ success: true } | { success: false; error }] *)
Inductive ConnPingResult :=
  | PingSuccess
  | PingFailure (error : Error).

Record InsertResult := {
  executed : bool;
  ir_query_id : string;
  ir_summary : option Summary;
  ir_response_headers : gmap string HeaderValue;
}.

(** What the error callback given to [makeResultSet] captures. *)
Record ErrorCallback := {
  cb_session_id : option string;
  cb_role : option Role;
  cb_query : string;
  cb_query_id : string;
}.

End DataModel.

(** ** Effects

    An [async] method either returns or throws, and on the way calls the
    collaborators injected at construction.  A computation threads a state
    made of the outside world and of the log of the collaborator calls made
    so far, in order. *)

Section Effects.
Context `{T : Types}.

Inductive Outcome (A : Type) :=
  | Returned (a : A)
  | Raised (e : Error).
Global Arguments Returned {A} a.
Global Arguments Raised {A} e.

(** A collaborator's operation: it sees and changes the world only. *)
Definition External (A : Type) : Type := World -> Outcome A * World.

Inductive Call :=
  | CallValidateInsertValues (values : InsertValues) (format : string)
  | CallEncodeValues (values : InsertValues) (format : string)
  | CallConnQuery (req : ConnBaseQueryParams)
  | CallConnCommand (req : ConnBaseQueryParams)
  | CallConnExec (req : ConnExecParams)
  | CallConnInsert (req : ConnInsertParams)
  | CallConnPing
  | CallConnClose
  | CallMakeResultSet (stream : Stream) (format query_id : string)
      (onError : ErrorCallback) (response_headers : gmap string HeaderValue).

Record State := {
  world : World;
  calls : list Call;
}.

Definition Promise (A : Type) : Type := State -> Outcome A * State.

Definition ret {A} (a : A) : Promise A := fun st => (Returned a, st).

Definition bind {A B} (m : Promise A) (k : A -> Promise B) : Promise B :=
  fun st =>
    match m st with
    | (Returned a, st') => k a st'
    | (Raised e, st') => (Raised e, st')
    end.

(** Calling a collaborator appends the call to the log and runs it on the
    world. *)
Definition invoke {A} (c : Call) (f : External A) : Promise A :=
  fun st =>
    let (r, w) := f (world st) in
    (r, {| world := w; calls := calls st ++ [c] |}).

(** *** Collaborators *)

(** The connection, as the client uses it: one operation per kind of
    request, a probe and a shutdown.  Each may raise; the client adds no
    handler of its own. *)
Record Connection := {
  conn_query : ConnBaseQueryParams -> External ConnQueryResult;
  conn_command : ConnBaseQueryParams -> External ConnCommandResult;
  conn_exec : ConnExecParams -> External ConnExecResult;
  conn_insert : ConnInsertParams -> External ConnCommandResult;
  conn_ping : External ConnPingResult;
  conn_close : External unit;
}.

Record ValuesEncoder := {
  validateInsertValues : InsertValues -> string -> External unit;
  encodeValues : InsertValues -> string -> External Encoded;
}.

Definition MakeResultSet : Type :=
  Stream -> string -> string -> ErrorCallback ->
  gmap string HeaderValue -> External ResultSet.

(** The fields of [ClickHouseClient] that the operations read. *)
Record ClickHouseClient := {
  clientClickHouseSettings : gmap string SettingValue;
  connection : Connection;
  makeResultSet : MakeResultSet;
  valuesEncoder : ValuesEncoder;
  sessionId : option string;
  clientRole : option Role;
}.

End Effects.

Declare Scope promise_scope.
Delimit Scope promise_scope with promise.
Notation "x <- m ;; k" := (bind m (fun x => k))
  (at level 100, m at next level, right associativity) : promise_scope.
Notation "m ;;; k" := (bind m (fun _ => k))
  (at level 100, right associativity) : promise_scope.

(** ** The client *)

Section Client.
Context `{T : Types}.
Local Open Scope promise_scope.

Definition withClientQueryParams (self : ClickHouseClient)
    (params : BaseQueryParams) : BaseQueryParams :=
  {| clickhouse_settings :=
       Some (JS.spread (clientClickHouseSettings self)
               (default ∅ (clickhouse_settings params)));
     query_params := query_params params;
     abort_signal := abort_signal params;
     query_id := query_id params;
     session_id := JS.nullish_opt (session_id params) (sessionId self);
     role := JS.nullish_opt (role params) (clientRole self);
     auth := auth params;
     opentelemetry_headers := opentelemetry_headers params |}.

Definition getInsertQuery (params : InsertParams) (format : string) : string :=
  let columnsPart :=
    match ip_columns params with
    | None => ""
    | Some (ColumnsArray columns) =>
        if (0 <? List.length columns)
        then " (" +:+ JS.join ", " columns +:+ ")"
        else ""
    | Some (ColumnsExcept except) =>
        if (0 <? List.length except)
        then " (* EXCEPT (" +:+ JS.join ", " except +:+ "))"
        else ""
    end in
  "INSERT INTO " +:+ JS.trim (ip_table params) +:+ columnsPart
    +:+ " FORMAT " +:+ format.

Definition query (self : ClickHouseClient) (params : QueryParams)
    : Promise ResultSet :=
  let format := JS.nullish (qp_format params) "JSON" in
  let query := formatQuery (qp_query params) format in
  let queryParams := withClientQueryParams self (qp_base params) in
  let req := {| cq_query := query; cq_params := queryParams |} in
  r <- invoke (CallConnQuery req) (conn_query (connection self) req) ;;
  let onError :=
    {| cb_session_id := session_id queryParams;
       cb_role := role queryParams;
       cb_query := query;
       cb_query_id := qr_query_id r |} in
  invoke
    (CallMakeResultSet (qr_stream r) format (qr_query_id r) onError
       (qr_response_headers r))
    (makeResultSet self (qr_stream r) format (qr_query_id r) onError
       (qr_response_headers r)).

Definition command (self : ClickHouseClient) (params : CommandParams)
    : Promise ConnCommandResult :=
  let query := removeTrailingSemi (JS.trim (ep_query params)) in
  let req :=
    {| cq_query := query;
       cq_params := withClientQueryParams self (ep_base params) |} in
  invoke (CallConnCommand req) (conn_command (connection self) req).

Definition exec (self : ClickHouseClient) (params : ExecParams)
    : Promise ConnExecResult :=
  let query := removeTrailingSemi (JS.trim (ep_query params)) in
  let values := ep_values params in
  let decompress_response_stream :=
    JS.nullish (ep_decompress_response_stream params) true in
  let req :=
    {| ce_query := query;
       ce_values := values;
       ce_decompress_response_stream := decompress_response_stream;
       ce_params := withClientQueryParams self (ep_base params) |} in
  invoke (CallConnExec req) (conn_exec (connection self) req).

(** [Array.isArray(values) && values.length === 0] *)
Definition isEmptyArray (values : InsertValues) : bool :=
  match values with
  | ValuesArray rows => (List.length rows =? 0)%nat
  | _ => false
  end.

Definition insert (self : ClickHouseClient) (params : InsertParams)
    : Promise InsertResult :=
  if isEmptyArray (ip_values params) then
    ret {| executed := false; ir_query_id := "";
           ir_summary := None; ir_response_headers := ∅ |}
  else
    let format := JS.or_string (ip_format params) "JSONCompactEachRow" in
    invoke (CallValidateInsertValues (ip_values params) format)
      (validateInsertValues (valuesEncoder self) (ip_values params) format) ;;;
    let query := getInsertQuery params format in
    values <- invoke (CallEncodeValues (ip_values params) format)
      (encodeValues (valuesEncoder self) (ip_values params) format) ;;
    let req :=
      {| ci_query := query;
         ci_values := values;
         ci_params := withClientQueryParams self (ip_base params) |} in
    result <- invoke (CallConnInsert req) (conn_insert (connection self) req) ;;
    ret {| executed := true;
           ir_query_id := cr_query_id result;
           ir_summary := cr_summary result;
           ir_response_headers := cr_response_headers result |}.

Definition ping (self : ClickHouseClient) : Promise ConnPingResult :=
  invoke CallConnPing (conn_ping (connection self)).

Definition close (self : ClickHouseClient) : Promise unit :=
  invoke CallConnClose (conn_close (connection self)).

End Client.

(** ** Specification vocabulary for the statement formatter *)

(** The string made of [n] statement separators. *)
Fixpoint semis (n : nat) : string :=
  match n with
  | O => EmptyString
  | S n' => String semi (semis n')
  end.

(** Every code unit of the text is the statement separator. *)
Fixpoint all_semi (s : string) : bool :=
  match s with
  | EmptyString => true
  | String c s' => bool_decide (c = semi) && all_semi s'
  end.

(** The text ends with the statement separator. *)
Fixpoint ends_with_semi (s : string) : bool :=
  match s with
  | EmptyString => false
  | String c EmptyString => bool_decide (c = semi)
  | String _ s' => ends_with_semi s'
  end.

(** What the specification asks of the trailing-separator trim: the text
    without its maximal trailing run of separators. *)
Fixpoint strip_trailing_run (s : string) : string :=
  match s with
  | EmptyString => EmptyString
  | String c s' =>
      match strip_trailing_run s' with
      | EmptyString => if bool_decide (c = semi) then EmptyString else String c EmptyString
      | r => String c r
      end
  end.

(** The connection calls of a log with the statement each one carries. *)
Definition statement_of `{T : Types} (c : Call) : option string :=
  match c with
  | CallConnQuery req | CallConnCommand req => Some (cq_query req)
  | CallConnExec req => Some (ce_query req)
  | CallConnInsert req => Some (ci_query req)
  | _ => None
  end.

(** The effective parameters each connection call carries. *)
Definition params_of `{T : Types} (c : Call) : option BaseQueryParams :=
  match c with
  | CallConnQuery req | CallConnCommand req => Some (cq_params req)
  | CallConnExec req => Some (ce_params req)
  | CallConnInsert req => Some (ci_params req)
  | _ => None
  end.

(** ** A concrete client

    A client over a connection that is down: every request is refused and
    the probe reports the refusal in its result.  The world counts the
    requests the connection has received. *)

Module Sample.

#[local] Instance types : Types := {|
  Stream := string;
  Row := Z;
  InputJSON := list Z;
  Encoded := string;
  SettingValue := Z;
  Unknown := string;
  AbortSignal := unit;
  HeaderValue := string;
  Summary := nat;
  Error := string;
  ResultSet := string;
  World := nat;
|}.

Definition refused : Error := "ECONNREFUSED".

Definition down : Connection := {|
  conn_query := fun _ w => (Raised refused, S w);
  conn_command := fun _ w => (Raised refused, S w);
  conn_exec := fun _ w => (Raised refused, S w);
  conn_insert := fun _ w => (Raised refused, S w);
  conn_ping := fun w => (Returned (PingFailure refused), S w);
  conn_close := fun w => (Returned tt, w);
|}.

(** A connection that answers every request. *)
Definition up : Connection := {|
  conn_query := fun req w =>
    (Returned {| qr_stream := cq_query req; qr_query_id := "q";
                 qr_response_headers := ∅ |}, S w);
  conn_command := fun _ w =>
    (Returned {| cr_query_id := "q"; cr_summary := None;
                 cr_response_headers := ∅ |}, S w);
  conn_exec := fun req w =>
    (Returned {| er_stream := ce_query req; er_query_id := "q";
                 er_summary := None; er_response_headers := ∅ |}, S w);
  conn_insert := fun req w =>
    (Returned {| cr_query_id := "q"; cr_summary := Some (String.length (ci_values req));
                 cr_response_headers := ∅ |}, S w);
  conn_ping := fun w => (Returned PingSuccess, S w);
  conn_close := fun w => (Returned tt, w);
|}.

(** An encoder that accepts arrays only and writes one line per row. *)
Definition encoder : ValuesEncoder := {|
  validateInsertValues := fun values _ w =>
    match values with
    | ValuesArray _ => (Returned tt, w)
    | _ => (Raised "Cannot use a stream or an object with this encoder", w)
    end;
  encodeValues := fun values _ w =>
    match values with
    | ValuesArray rows => (Returned (semis (List.length rows)), w)
    | _ => (Raised "Cannot encode", w)
    end;
|}.

Definition client (conn : Connection) : ClickHouseClient := {|
  clientClickHouseSettings := {[ "max_threads" := 4%Z ]};
  connection := conn;
  makeResultSet := fun stream _ _ _ _ w => (Returned stream, w);
  valuesEncoder := encoder;
  sessionId := Some "client-session";
  clientRole := None;
|}.

Definition noParams : BaseQueryParams := {|
  clickhouse_settings := None;
  query_params := None;
  abort_signal := None;
  query_id := None;
  session_id := None;
  role := None;
  auth := None;
  opentelemetry_headers := None;
|}.

Definition start : State := {| world := 0%nat; calls := [] |}.

(** A dataset of one row. *)
Definition oneRow : InsertValues := ValuesArray (T := types) [1%Z].

(** Per-call parameters that only give settings:
    [{clickhouse_settings: {max_threads: 8, readonly: 1}}]. *)
Definition callSettings : BaseQueryParams := {|
  clickhouse_settings :=
    Some ({[ "max_threads" := 8%Z; "readonly" := 1%Z ]} : gmap string Z);
  query_params := None;
  abort_signal := None;
  query_id := None;
  session_id := None;
  role := None;
  auth := None;
  opentelemetry_headers := None;
|}.

End Sample.

(** ** Further vocabulary *)

(** Every code unit of the text is white space for [trim()]. *)
Fixpoint all_ws (s : string) : bool :=
  match s with
  | EmptyString => true
  | String c s' => JS.isWhiteSpace c && all_ws s'
  end.

(** The calls of a log that go to the connection. *)
Definition is_connection_call `{T : Types} (c : Call) : bool :=
  match c with
  | CallConnQuery _ | CallConnCommand _ | CallConnExec _ | CallConnInsert _
  | CallConnPing | CallConnClose => true
  | _ => false
  end.


(** ** Collaborators that fail

    A connection whose every operation raises, the probe included, and an
    encoder that accepts every dataset but cannot encode any. *)

Module Faulty.

#[local] Existing Instance Sample.types.

Definition broken : Error := "EPIPE".

Definition raising : Connection := {|
  conn_query := fun _ w => (Raised broken, S w);
  conn_command := fun _ w => (Raised broken, S w);
  conn_exec := fun _ w => (Raised broken, S w);
  conn_insert := fun _ w => (Raised broken, S w);
  conn_ping := fun w => (Raised broken, S w);
  conn_close := fun w => (Raised broken, S w);
|}.

Definition encoder : ValuesEncoder := {|
  validateInsertValues := fun _ _ w => (Returned tt, w);
  encodeValues := fun _ _ w => (Raised "Cannot encode", w);
|}.

Definition client : ClickHouseClient := {|
  clientClickHouseSettings := ∅;
  connection := Sample.up;
  makeResultSet := fun stream _ _ _ _ w => (Returned stream, w);
  valuesEncoder := encoder;
  sessionId := None;
  clientRole := None;
|}.

(** A dataset given as a stream. *)
Definition streamed : InsertValues := ValuesStream (T := Sample.types) "rows".

(** An [insert] into table [t] without format, leaving out column [b]. *)
Definition exceptB (values : InsertValues) : InsertParams :=
  {| ip_base := Sample.noParams; ip_table := "t"; ip_values := values;
     ip_format := None; ip_columns := Some (ColumnsExcept ["b"]) |}.

End Faulty.

(** * Proofs *)

(** ** Strings *)

Section StringFacts.

(** The two equations of [+:+] on strings, for rewriting. *)
Lemma append_nil (b : string) : "" +:+ b = b.
Proof. reflexivity. Qed.

Lemma append_cons x (a b : string) : String x a +:+ b = String x (a +:+ b).
Proof. reflexivity. Qed.

Lemma length_semis n : String.length (semis n) = n.
Proof. induction n; simpl; congruence. Qed.

Lemma get_semis n k : (k < n)%nat -> String.get k (semis n) = Some semi.
Proof.
  revert k; induction n as [|n IH]; intros k Hk; [lia|].
  destruct k as [|k]; simpl; [reflexivity|]. apply IH; lia.
Qed.

Lemma length_append (a b : string) :
  String.length (a +:+ b) = (String.length a + String.length b)%nat.
Proof. induction a; [reflexivity | simpl; congruence]. Qed.

Lemma get_append_r (a b : string) k :
  String.get (String.length a + k) (a +:+ b) = String.get k b.
Proof. induction a; [reflexivity | simpl; auto]. Qed.

Lemma substring_append_l (a b : string) :
  String.substring 0 (String.length a) (a +:+ b) = a.
Proof.
  induction a as [|c a IH].
  - destruct b; reflexivity.
  - simpl. now rewrite IH.
Qed.

Lemma append_assoc (a b c : string) : (a +:+ b) +:+ c = a +:+ (b +:+ c).
Proof.
  induction a as [|x a IH]; [reflexivity|].
  now rewrite !append_cons, IH.
Qed.

Lemma append_empty_r (a : string) : a +:+ "" = a.
Proof.
  induction a as [|x a IH]; [reflexivity|].
  now rewrite append_cons, IH.
Qed.

Lemma all_semi_semis n : all_semi (semis n) = true.
Proof. induction n; simpl; auto. Qed.

Lemma all_semi_eq s : all_semi s = true -> s = semis (String.length s).
Proof.
  induction s as [|c s IH]; simpl; [reflexivity|].
  intros [Hc Hs]%andb_prop. apply bool_decide_eq_true in Hc.
  subst c. f_equal. auto.
Qed.

(** Every text is a run of separators, or a prefix, a last code unit
    that is not the separator, and a run of separators. *)
Lemma trailing_run_decompose s :
  all_semi s = true \/
  exists p c n, c <> semi /\ s = p +:+ String c (semis n).
Proof.
  induction s as [|a s IH]; [now left|].
  destruct IH as [Hall | (p & c & n & Hc & ->)].
  - destruct (decide (a = semi)) as [->|Ha].
    + left. simpl. now rewrite Hall.
    + right. exists "", a, (String.length s). split; [assumption|].
      rewrite append_nil. f_equal. now apply all_semi_eq.
  - right. exists (String a p), c, n. split; [assumption|reflexivity].
Qed.

End StringFacts.

(** ** The trailing-separator trim *)

Section RemoveTrailingSemi.

(** On a run of separators the loop never breaks. *)
Lemma scan_all_semi n i l :
  (i <= n)%nat -> scanTrailingSemi (semis n) i l = l.
Proof.
  induction i as [|i IH]; intros Hi; simpl; [reflexivity|].
  rewrite get_semis by lia. rewrite bool_decide_eq_true_2 by reflexivity.
  apply IH; lia.
Qed.

Lemma removeTrailingSemi_semis n : removeTrailingSemi (semis n) = semis n.
Proof.
  unfold removeTrailingSemi. rewrite length_semis, scan_all_semi by lia.
  now rewrite bool_decide_eq_true_2.
Qed.

(** The loop breaks just after the last code unit that is not the
    separator. *)
Lemma scan_last_non_semi p c n k l :
  c <> semi -> (k <= n)%nat ->
  scanTrailingSemi (p +:+ String c (semis n)) (String.length p + 1 + k) l
  = (String.length p + 1)%nat.
Proof.
  intros Hc. induction k as [|k IH]; intros Hk.
  - replace (String.length p + 1 + 0)%nat with (S (String.length p + 0)) by lia.
    cbn [scanTrailingSemi]. rewrite get_append_r. simpl.
    rewrite bool_decide_eq_false_2 by congruence. lia.
  - replace (String.length p + 1 + S k)%nat
      with (S (String.length p + S k)) by lia.
    cbn [scanTrailingSemi]. rewrite get_append_r. simpl.
    rewrite get_semis by lia. rewrite bool_decide_eq_true_2 by reflexivity.
    replace (String.length p + S k)%nat with (String.length p + 1 + k)%nat by lia.
    apply IH; lia.
Qed.

Lemma removeTrailingSemi_last_non_semi p c n :
  c <> semi ->
  removeTrailingSemi (p +:+ String c (semis n)) = p +:+ String c "".
Proof.
  intros Hc. unfold removeTrailingSemi.
  rewrite length_append. cbn [String.length]. rewrite length_semis.
  replace (String.length p + S n)%nat with (String.length p + 1 + n)%nat by lia.
  rewrite scan_last_non_semi by (assumption || lia).
  case_bool_decide as Hn.
  - assert (n = 0%nat) as -> by lia. reflexivity.
  - replace (p +:+ String c (semis n)) with ((p +:+ String c "") +:+ semis n)
      by (rewrite append_assoc; reflexivity).
    replace (String.length p + 1)%nat with (String.length (p +:+ String c ""))
      by (rewrite length_append; reflexivity).
    apply substring_append_l.
Qed.

(** The result is always the text without some trailing separators:
    nothing is appended and nothing before the run is touched. *)
Lemma removeTrailingSemi_prefix s :
  exists n, s = removeTrailingSemi s +:+ semis n.
Proof.
  destruct (trailing_run_decompose s) as [Hall | (p & c & n & Hc & ->)].
  - exists 0%nat. rewrite (all_semi_eq s Hall), removeTrailingSemi_semis.
    now rewrite append_empty_r.
  - exists n. rewrite removeTrailingSemi_last_non_semi by assumption.
    now rewrite append_assoc.
Qed.

End RemoveTrailingSemi.

(** ** The trim of the code against the trim of the specification *)

Section StripTrailingRun.

Lemma strip_trailing_run_semis n : strip_trailing_run (semis n) = "".
Proof.
  induction n as [|n IH]; [reflexivity|].
  cbn [semis strip_trailing_run]. rewrite IH.
  now rewrite bool_decide_eq_true_2.
Qed.

Lemma strip_trailing_run_last c n :
  c <> semi -> strip_trailing_run (String c (semis n)) = String c "".
Proof.
  intros Hc. cbn [strip_trailing_run]. rewrite strip_trailing_run_semis.
  now rewrite bool_decide_eq_false_2.
Qed.

Lemma strip_trailing_run_last_non_semi p c n :
  c <> semi ->
  strip_trailing_run (p +:+ String c (semis n)) = p +:+ String c "".
Proof.
  intros Hc. induction p as [|a p IH].
  - rewrite !append_nil. now apply strip_trailing_run_last.
  - rewrite !append_cons. cbn [strip_trailing_run]. rewrite IH.
    destruct p; reflexivity.
Qed.

(** Wherever the text has a code unit that is not the separator, the
    loop of [removeTrailingSemi] computes the trim of the specification. *)
Lemma removeTrailingSemi_strips s :
  all_semi s = false -> removeTrailingSemi s = strip_trailing_run s.
Proof.
  intros Hs.
  destruct (trailing_run_decompose s) as [Hall | (p & c & n & Hc & ->)];
    [congruence|].
  now rewrite removeTrailingSemi_last_non_semi,
    strip_trailing_run_last_non_semi.
Qed.

Lemma removeTrailingSemi_all_semi s :
  all_semi s = true -> removeTrailingSemi s = s.
Proof.
  intros Hs. rewrite (all_semi_eq s Hs). apply removeTrailingSemi_semis.
Qed.

Lemma isWhiteSpace_semi : JS.isWhiteSpace semi = false.
Proof. reflexivity. Qed.

Lemma trimEnd_semis n : JS.trimEnd (semis n) = semis n.
Proof.
  induction n as [|n IH]; [reflexivity|].
  cbn [semis JS.trimEnd]. rewrite IH, isWhiteSpace_semi.
  destruct n; reflexivity.
Qed.

Lemma trim_semis n : JS.trim (semis n) = semis n.
Proof.
  unfold JS.trim. destruct n as [|n]; [reflexivity|].
  cbn [semis JS.trimStart]. rewrite isWhiteSpace_semi.
  apply (trimEnd_semis (S n)).
Qed.

Lemma trim_all_semi s : all_semi s = true -> JS.trim s = s.
Proof. intros Hs. rewrite (all_semi_eq s Hs). apply trim_semis. Qed.

End StripTrailingRun.

(** ** What each operation does to the log *)

Section Operations.
Context `{T : Types}.

Lemma query_run (self : ClickHouseClient) (params : QueryParams) (st : State) :
  let format := JS.nullish (qp_format params) "JSON" in
  let req := {| cq_query := formatQuery (qp_query params) format;
                cq_params := withClientQueryParams self (qp_base params) |} in
  exists rest,
    calls (query self params st).2 = calls st ++ CallConnQuery req :: rest /\
    (rest = [] \/
     exists stream query_id onError headers,
       rest = [CallMakeResultSet stream format query_id onError headers]).
Proof.
  intros format req. unfold query, bind, invoke. fold format. fold req.
  destruct (conn_query (connection self) req (world st)) as [[r|e] w]; simpl.
  - destruct (makeResultSet self _ _ _ _ _ w) as [o w']; simpl.
    eexists. split; [now rewrite <- app_assoc|]. right. eauto 10.
  - exists []. split; [reflexivity|now left].
Qed.

Lemma command_run (self : ClickHouseClient) (params : CommandParams) (st : State) :
  let req := {| cq_query := removeTrailingSemi (JS.trim (ep_query params));
                cq_params := withClientQueryParams self (ep_base params) |} in
  command self params st =
    ((conn_command (connection self) req (world st)).1,
     {| world := (conn_command (connection self) req (world st)).2;
        calls := calls st ++ [CallConnCommand req] |}).
Proof.
  intros req. unfold command, invoke. fold req.
  now destruct (conn_command (connection self) req (world st)).
Qed.

Lemma exec_run (self : ClickHouseClient) (params : ExecParams) (st : State) :
  let req := {| ce_query := removeTrailingSemi (JS.trim (ep_query params));
                ce_values := ep_values params;
                ce_decompress_response_stream :=
                  JS.nullish (ep_decompress_response_stream params) true;
                ce_params := withClientQueryParams self (ep_base params) |} in
  exec self params st =
    ((conn_exec (connection self) req (world st)).1,
     {| world := (conn_exec (connection self) req (world st)).2;
        calls := calls st ++ [CallConnExec req] |}).
Proof.
  intros req. unfold exec, invoke. fold req.
  now destruct (conn_exec (connection self) req (world st)).
Qed.

Lemma ping_run (self : ClickHouseClient) (st : State) :
  ping self st =
    ((conn_ping (connection self) (world st)).1,
     {| world := (conn_ping (connection self) (world st)).2;
        calls := calls st ++ [CallConnPing] |}).
Proof.
  unfold ping, invoke. now destruct (conn_ping (connection self) (world st)).
Qed.

(** The three collaborator calls of an [insert] that is not skipped, in
    order; the first failure ends the operation. *)
Lemma insert_run (self : ClickHouseClient) (params : InsertParams) (st : State) :
  isEmptyArray (ip_values params) = false ->
  let format := JS.or_string (ip_format params) "JSONCompactEachRow" in
  let values := ip_values params in
  let validate := CallValidateInsertValues values format in
  let encode := CallEncodeValues values format in
  let req payload :=
    {| ci_query := getInsertQuery params format;
       ci_values := payload;
       ci_params := withClientQueryParams self (ip_base params) |} in
  insert self params st =
    match validateInsertValues (valuesEncoder self) values format (world st) with
    | (Raised e, w1) =>
        (Raised e, {| world := w1; calls := calls st ++ [validate] |})
    | (Returned _, w1) =>
        match encodeValues (valuesEncoder self) values format w1 with
        | (Raised e, w2) =>
            (Raised e, {| world := w2; calls := calls st ++ [validate; encode] |})
        | (Returned payload, w2) =>
            match conn_insert (connection self) (req payload) w2 with
            | (Raised e, w3) =>
                (Raised e,
                 {| world := w3;
                    calls := calls st ++ [validate; encode; CallConnInsert (req payload)] |})
            | (Returned result, w3) =>
                (Returned {| executed := true;
                             ir_query_id := cr_query_id result;
                             ir_summary := cr_summary result;
                             ir_response_headers := cr_response_headers result |},
                 {| world := w3;
                    calls := calls st ++ [validate; encode; CallConnInsert (req payload)] |})
            end
        end
    end.
Proof.
  intros Hne format values validate encode req.
  unfold insert. rewrite Hne. fold format. fold values.
  unfold bind, invoke, ret.
  destruct (validateInsertValues _ values format (world st)) as [[[]|e] w1];
    simpl; [|reflexivity].
  destruct (encodeValues _ values format w1) as [[payload|e] w2]; simpl;
    [|now rewrite <- app_assoc].
  fold (req payload).
  destruct (conn_insert _ (req payload) w2) as [[result|e] w3]; simpl;
    now rewrite <- !app_assoc.
Qed.

End Operations.

(** ** What each operation sends to the connection *)

Section Sends.
Context `{T : Types}.

Lemma query_sends (self : ClickHouseClient) (params : QueryParams) (st : State) :
  let format := JS.nullish (qp_format params) "JSON" in
  exists new,
    calls (query self params st).2 = calls st ++ new /\
    omap statement_of new = [formatQuery (qp_query params) format] /\
    omap params_of new = [withClientQueryParams self (qp_base params)] /\
    forall stream f query_id onError headers,
      In (CallMakeResultSet stream f query_id onError headers) new ->
      f = format.
Proof.
  intros format.
  destruct (query_run self params st) as (rest & Hcalls & Hrest).
  eexists. split; [exact Hcalls|].
  destruct Hrest as [-> | (s & q & cb & h & ->)]; repeat split;
    intros ? ? ? ? ? Hin; simpl in Hin;
    repeat (destruct Hin as [Hin|Hin]; try discriminate Hin);
    try contradiction.
  now injection Hin.
Qed.

Lemma command_sends (self : ClickHouseClient) (params : CommandParams) (st : State) :
  exists new,
    calls (command self params st).2 = calls st ++ new /\
    omap statement_of new = [removeTrailingSemi (JS.trim (ep_query params))] /\
    omap params_of new = [withClientQueryParams self (ep_base params)].
Proof. rewrite command_run. eexists. repeat split. Qed.

Lemma exec_sends (self : ClickHouseClient) (params : ExecParams) (st : State) :
  exists new,
    calls (exec self params st).2 = calls st ++ new /\
    omap statement_of new = [removeTrailingSemi (JS.trim (ep_query params))] /\
    omap params_of new = [withClientQueryParams self (ep_base params)].
Proof. rewrite exec_run. eexists. repeat split. Qed.

Lemma insert_skipped (self : ClickHouseClient) (params : InsertParams) (st : State) :
  isEmptyArray (ip_values params) = true ->
  insert self params st =
    (Returned {| executed := false; ir_query_id := "";
                 ir_summary := None; ir_response_headers := ∅ |}, st).
Proof. intros He. unfold insert. now rewrite He. Qed.

Lemma insert_sends (self : ClickHouseClient) (params : InsertParams) (st : State) :
  exists new,
    calls (insert self params st).2 = calls st ++ new /\
    (omap params_of new = [] \/
     omap params_of new = [withClientQueryParams self (ip_base params)]).
Proof.
  destruct (isEmptyArray (ip_values params)) eqn:He.
  - rewrite insert_skipped by assumption. exists []. split; [|now left].
    simpl. now rewrite app_nil_r.
  - rewrite insert_run by assumption.
    destruct (validateInsertValues _ _ _ _) as [[[]|e] w1];
      [|eexists; split; [reflexivity|now left]].
    destruct (encodeValues _ _ _ _) as [[payload|e] w2];
      [|eexists; split; [reflexivity|now left]].
    destruct (conn_insert _ _ _) as [[result|e] w3];
      eexists; (split; [reflexivity|now right]).
Qed.

(** An [insert] that is not skipped starts with the validation, and
    reaches the connection only after validation and encoding. *)
Lemma insert_order (self : ClickHouseClient) (params : InsertParams) (st : State) :
  isEmptyArray (ip_values params) = false ->
  let format := JS.or_string (ip_format params) "JSONCompactEachRow" in
  let validate := CallValidateInsertValues (ip_values params) format in
  let encode := CallEncodeValues (ip_values params) format in
  exists rest,
    calls (insert self params st).2 = calls st ++ validate :: rest /\
    forall req, In (CallConnInsert req) (validate :: rest) ->
      rest = [encode; CallConnInsert req] /\
      ci_query req = getInsertQuery params format /\
      ci_params req = withClientQueryParams self (ip_base params).
Proof.
  intros Hne format validate encode. rewrite insert_run by assumption.
  fold format.
  destruct (validateInsertValues _ _ _ _) as [[[]|e] w1].
  2:{ eexists. split; [reflexivity|]. intros req [Hin|[]]. discriminate Hin. }
  destruct (encodeValues _ _ _ _) as [[payload|e] w2].
  2:{ eexists. split; [reflexivity|].
      intros req [Hin|[Hin|[]]]; discriminate Hin. }
  destruct (conn_insert _ _ _) as [[result|e] w3];
    (eexists; split; [reflexivity|]);
    intros req [Hin|[Hin|[Hin|[]]]]; try discriminate Hin;
    injection Hin as <-; repeat split.
Qed.

End Sends.

(** * Properties of the client *)

Section Claims.
Context `{T : Types}.

(** C2. An [insert] whose values are an array of length zero returns
    [{executed: false, query_id: '', response_headers: {}}] and leaves the
    state as it found it: the log gains no call (no validation, no
    encoding, no connection call) and the world is untouched. *)
Theorem insert_empty_array_short_circuits
    (self : ClickHouseClient) (base : BaseQueryParams) (table : string)
    (format : option string) (columns : option InsertColumns) (st : State) :
  insert self
    {| ip_base := base; ip_table := table; ip_values := ValuesArray [];
       ip_format := format; ip_columns := columns |} st
  = (Returned {| executed := false; ir_query_id := "";
                 ir_summary := None; ir_response_headers := ∅ |}, st).
Proof. now apply insert_skipped. Qed.

(** C3. The effective settings are the key-wise shallow merge of the
    client-level and the per-call settings in which a per-call key wins
    for that key only; merging the per-call settings into the merged
    result changes nothing; and the client of [Sample], whose settings are
    [{max_threads: 4}], called with [{max_threads: 8, readonly: 1}] gives
    [{max_threads: 8, readonly: 1}]. *)
Theorem settings_merge_override_idempotent
    (self : ClickHouseClient) (params : BaseQueryParams) :
  let client := clientClickHouseSettings self in
  let call := default ∅ (clickhouse_settings params) in
  (exists effective,
     clickhouse_settings (withClientQueryParams self params) = Some effective /\
     (forall k,
        effective !! k =
          match call !! k with
          | Some v => Some v
          | None => client !! k
          end) /\
     (forall self' : ClickHouseClient,
        clientClickHouseSettings self' = effective ->
        clickhouse_settings (withClientQueryParams self' params)
        = Some effective)) /\
  JS.spread ({[ "max_threads" := 4%Z ]} : gmap string Z)
    {[ "max_threads" := 8%Z; "readonly" := 1%Z ]}
  = {[ "max_threads" := 8%Z; "readonly" := 1%Z ]}.
Proof.
  intros client call. split; [|reflexivity].
  exists (JS.spread client call). split; [reflexivity|]. split.
  - intros k. unfold JS.spread. rewrite lookup_union.
    destruct (call !! k), (client !! k); reflexivity.
  - intros self' Hself'. unfold withClientQueryParams. simpl.
    rewrite Hself'. fold call. f_equal. unfold JS.spread.
    apply map_eq. intros k. rewrite !lookup_union.
    destruct (call !! k), (client !! k); reflexivity.
Qed.

(** C5. A [query] without a format uses JSON and sends the trimmed text
    followed by [' \nFORMAT '] and [JSON]; wherever the trimmed text has a
    code unit other than [';'] the text sent is the one without its maximal
    trailing run of separators, as for [query({query: "SELECT 1"})], which
    sends ["SELECT 1 \nFORMAT JSON"], and for ["  SELECT 1;; "], which sends
    the same.  For [query({query: ";;;"})] the statement sent is
    [";;; \nFORMAT JSON"], where the separator-stripped text followed by the
    clause is [" \nFORMAT JSON"]. *)
Theorem query_default_format_keeps_run_of_separators
    (self : ClickHouseClient) (base : BaseQueryParams) (st : State) :
  let sent text :=
    omap statement_of
      (drop (List.length (calls st))
         (calls (query self {| qp_base := base; qp_query := text;
                               qp_format := None |} st).2)) in
  (forall text, exists new,
     calls (query self {| qp_base := base; qp_query := text;
                          qp_format := None |} st).2 = calls st ++ new /\
     (forall stream f query_id onError headers,
        In (CallMakeResultSet stream f query_id onError headers) new ->
        f = "JSON")) /\
  (forall text,
     all_semi (JS.trim text) = false ->
     sent text =
       [(strip_trailing_run (JS.trim text) +:+ FORMAT_CLAUSE) +:+ "JSON"]) /\
  sent "SELECT 1" = ["SELECT 1 " +:+ String "010"%char "FORMAT JSON"] /\
  sent "  SELECT 1;; " = ["SELECT 1 " +:+ String "010"%char "FORMAT JSON"] /\
  sent ";;;" = [";;; " +:+ String "010"%char "FORMAT JSON"] /\
  (strip_trailing_run (JS.trim ";;;") +:+ FORMAT_CLAUSE) +:+ "JSON"
    = " " +:+ String "010"%char "FORMAT JSON" /\
  sent ";;;" <> [(strip_trailing_run (JS.trim ";;;") +:+ FORMAT_CLAUSE) +:+ "JSON"].
Proof.
  intros sent.
  assert (Hsent : forall text,
            sent text = [formatQuery text "JSON"]).
  { intros text. unfold sent.
    destruct (query_sends self {| qp_base := base; qp_query := text;
                                  qp_format := None |} st)
      as (new & -> & Hstmt & _).
    now rewrite drop_app_length. }
  split; [|split; [|split; [|split; [|split; [|split]]]]].
  - intros text.
    destruct (query_sends self {| qp_base := base; qp_query := text;
                                  qp_format := None |} st)
      as (new & Hcalls & _ & _ & Hfmt).
    exists new. split; assumption.
  - intros text Htext. rewrite Hsent. unfold formatQuery.
    now rewrite removeTrailingSemi_strips.
  - now rewrite Hsent.
  - now rewrite Hsent.
  - now rewrite Hsent.
  - reflexivity.
  - rewrite Hsent. discriminate.
Qed.

(** C6. An empty inclusion list and an empty exclusion set produce the
    statement produced without a columns selector, which has no column
    clause: [INSERT INTO <table> FORMAT <format>], for table [t] and the
    default format ["INSERT INTO t FORMAT JSONCompactEachRow"]; the whole
    [insert] then behaves as it does without a selector. *)
Theorem empty_columns_selector_ignored
    (self : ClickHouseClient) (base : BaseQueryParams) (table : string)
    (values : InsertValues) (format : option string) (fmt : string)
    (st : State) :
  let params columns :=
    {| ip_base := base; ip_table := table; ip_values := values;
       ip_format := format; ip_columns := columns |} in
  getInsertQuery (params None) fmt
    = "INSERT INTO " +:+ JS.trim table +:+ " FORMAT " +:+ fmt /\
  getInsertQuery (params (Some (ColumnsArray []))) fmt
    = getInsertQuery (params None) fmt /\
  getInsertQuery (params (Some (ColumnsExcept []))) fmt
    = getInsertQuery (params None) fmt /\
  insert self (params (Some (ColumnsArray []))) st
    = insert self (params None) st /\
  insert self (params (Some (ColumnsExcept []))) st
    = insert self (params None) st /\
  getInsertQuery
    {| ip_base := base; ip_table := "t"; ip_values := values;
       ip_format := None; ip_columns := Some (ColumnsArray []) |}
    (JS.or_string None "JSONCompactEachRow")
    = "INSERT INTO t FORMAT JSONCompactEachRow".
Proof. intros params. repeat split. Qed.

(** C7. In the effective parameters the session id and the role are the
    per-call value when present and the client-level value otherwise; the
    query parameters, abort signal, query id, auth override and
    OpenTelemetry headers are the per-call inputs; and every request that
    [query], [command], [exec] and [insert] hand to the connection carries
    these effective parameters. *)
Theorem effective_params_override_and_pass_through
    (self : ClickHouseClient) (params : BaseQueryParams) :
  let effective := withClientQueryParams self params in
  session_id effective =
    match session_id params with
    | Some s => Some s
    | None => sessionId self
    end /\
  role effective =
    match role params with
    | Some r => Some r
    | None => clientRole self
    end /\
  query_params effective = query_params params /\
  abort_signal effective = abort_signal params /\
  query_id effective = query_id params /\
  auth effective = auth params /\
  opentelemetry_headers effective = opentelemetry_headers params /\
  (forall text format st, exists new,
     calls (query self {| qp_base := params; qp_query := text;
                          qp_format := format |} st).2 = calls st ++ new /\
     omap params_of new = [effective]) /\
  (forall text decompress values st, exists new,
     calls (command self {| ep_base := params; ep_query := text;
                            ep_decompress_response_stream := decompress;
                            ep_values := values |} st).2 = calls st ++ new /\
     omap params_of new = [effective]) /\
  (forall text decompress values st, exists new,
     calls (exec self {| ep_base := params; ep_query := text;
                         ep_decompress_response_stream := decompress;
                         ep_values := values |} st).2 = calls st ++ new /\
     omap params_of new = [effective]) /\
  (forall table values format columns st, exists new,
     calls (insert self {| ip_base := params; ip_table := table;
                           ip_values := values; ip_format := format;
                           ip_columns := columns |} st).2 = calls st ++ new /\
     (omap params_of new = [] \/ omap params_of new = [effective])).
Proof.
  intros effective. do 7 (split; [reflexivity|]). repeat split.
  - intros text format st.
    destruct (query_sends self {| qp_base := params; qp_query := text;
                                  qp_format := format |} st)
      as (new & ? & _ & ? & _). now exists new.
  - intros text decompress values st.
    destruct (command_sends self {| ep_base := params; ep_query := text;
                                    ep_decompress_response_stream := decompress;
                                    ep_values := values |} st)
      as (new & ? & _ & ?). now exists new.
  - intros text decompress values st.
    destruct (exec_sends self {| ep_base := params; ep_query := text;
                                 ep_decompress_response_stream := decompress;
                                 ep_values := values |} st)
      as (new & ? & _ & ?). now exists new.
  - intros table values format columns st.
    apply (insert_sends self {| ip_base := params; ip_table := table;
                                ip_values := values; ip_format := format;
                                ip_columns := columns |} st).
Qed.

(** C8. [command] and [exec] send the trimmed text and append nothing
    to it; wherever the trimmed text has a code unit other than [';'] the
    text sent is the one without its maximal trailing run of separators, as
    for ["  DROP TABLE t;; "], which is sent as ["DROP TABLE t"].  For the
    text [";;;"] both send [";;;"], where the separator-stripped text is
    empty. *)
Theorem command_exec_keep_run_of_separators
    (self : ClickHouseClient) (base : BaseQueryParams)
    (decompress : option bool) (values : option Stream) (st : State) :
  let params text :=
    {| ep_base := base; ep_query := text;
       ep_decompress_response_stream := decompress; ep_values := values |} in
  let sent_by_command text :=
    omap statement_of
      (drop (List.length (calls st)) (calls (command self (params text) st).2)) in
  let sent_by_exec text :=
    omap statement_of
      (drop (List.length (calls st)) (calls (exec self (params text) st).2)) in
  (forall text,
     all_semi (JS.trim text) = false ->
     sent_by_command text = [strip_trailing_run (JS.trim text)] /\
     sent_by_exec text = [strip_trailing_run (JS.trim text)]) /\
  sent_by_command "  DROP TABLE t;; " = ["DROP TABLE t"] /\
  sent_by_exec "  DROP TABLE t;; " = ["DROP TABLE t"] /\
  sent_by_command ";;;" = [";;;"] /\
  sent_by_exec ";;;" = [";;;"] /\
  strip_trailing_run (JS.trim ";;;") = "" /\
  sent_by_command ";;;" <> [strip_trailing_run (JS.trim ";;;")] /\
  sent_by_exec ";;;" <> [strip_trailing_run (JS.trim ";;;")].
Proof.
  intros params sent_by_command sent_by_exec.
  assert (Hcommand : forall text,
            sent_by_command text = [removeTrailingSemi (JS.trim text)]).
  { intros text. unfold sent_by_command. rewrite command_run.
    cbn [snd calls]. now rewrite drop_app_length. }
  assert (Hexec : forall text,
            sent_by_exec text = [removeTrailingSemi (JS.trim text)]).
  { intros text. unfold sent_by_exec. rewrite exec_run.
    cbn [snd calls]. now rewrite drop_app_length. }
  split; [|split; [|split; [|split; [|split; [|split; [|split]]]]]].
  - intros text Htext. rewrite Hcommand, Hexec.
    now rewrite removeTrailingSemi_strips.
  - now rewrite Hcommand.
  - now rewrite Hexec.
  - now rewrite Hcommand.
  - now rewrite Hexec.
  - reflexivity.
  - rewrite Hcommand. discriminate.
  - rewrite Hexec. discriminate.
Qed.

(** C4. An [insert] of a non-empty dataset into table [t] with
    [columns = {except: ["b"]}] and no format builds
    ["INSERT INTO t (* EXCEPT (b)) FORMAT JSONCompactEachRow"]; it first
    validates the values for [JSONCompactEachRow]; the connection's
    [insert] is reached only after the validation and the encoding, both
    for that format, and receives that statement; and whenever the
    encoder accepts and encodes the values, it is reached. *)
Theorem insert_except_default_format_order
    (self : ClickHouseClient) (base : BaseQueryParams)
    (values : InsertValues) (st : State) :
  isEmptyArray values = false ->
  let params :=
    {| ip_base := base; ip_table := "t"; ip_values := values;
       ip_format := None; ip_columns := Some (ColumnsExcept ["b"]) |} in
  let format := "JSONCompactEachRow" in
  let statement := "INSERT INTO t (* EXCEPT (b)) FORMAT JSONCompactEachRow" in
  let validate := CallValidateInsertValues values format in
  let encode := CallEncodeValues values format in
  getInsertQuery params (JS.or_string (ip_format params) "JSONCompactEachRow")
    = statement /\
  (exists rest,
     calls (insert self params st).2 = calls st ++ validate :: rest /\
     forall req, In (CallConnInsert req) (validate :: rest) ->
       rest = [encode; CallConnInsert req] /\ ci_query req = statement) /\
  (forall w1 w2 payload,
     validateInsertValues (valuesEncoder self) values format (world st)
       = (Returned tt, w1) ->
     encodeValues (valuesEncoder self) values format w1
       = (Returned payload, w2) ->
     calls (insert self params st).2
     = calls st ++
         [validate; encode;
          CallConnInsert {| ci_query := statement; ci_values := payload;
                            ci_params := withClientQueryParams self base |}]).
Proof.
  intros Hne params format statement validate encode.
  split; [reflexivity|]. split.
  - destruct (insert_order self params st Hne) as (rest & Hcalls & Hreq).
    exists rest. split; [exact Hcalls|].
    intros req Hin. destruct (Hreq req Hin) as (Hrest & Hq & _).
    split; [exact Hrest|exact Hq].
  - intros w1 w2 payload Hv He.
    rewrite (insert_run self params st Hne). cbn zeta.
    change (ip_values params) with values.
    change (JS.or_string (ip_format params) "JSONCompactEachRow") with format.
    rewrite Hv, He.
    now destruct (conn_insert _ _ _) as [[result|e] w3].
Qed.

(** C9. When the connection's [ping] never raises, neither does the
    client's: [ping()] returns, and a failure that the connection reports
    as [{success: false, error}] is the value returned. *)
Theorem ping_never_raises (self : ClickHouseClient) :
  (forall w, exists r w', conn_ping (connection self) w = (Returned r, w')) ->
  forall st,
    (exists r st', ping self st = (Returned r, st')) /\
    (forall error w',
       conn_ping (connection self) (world st)
         = (Returned (PingFailure error), w') ->
       (ping self st).1 = Returned (PingFailure error)).
Proof.
  intros Hcontract st. rewrite ping_run.
  destruct (Hcontract (world st)) as (r & w' & Hping). rewrite Hping.
  split; [eauto|]. intros error w'' [= -> _]. reflexivity.
Qed.

(** C10. On a text made of [';'] only the trailing-separator trim
    returns its input: [query] sends the whole run followed by the FORMAT
    clause, and [command] and [exec] send the whole run. *)
Theorem all_separators_text_kept
    (self : ClickHouseClient) (base : BaseQueryParams) (text : string)
    (format : option string) (decompress : option bool)
    (values : option Stream) (st : State) :
  all_semi text = true ->
  let params :=
    {| ep_base := base; ep_query := text;
       ep_decompress_response_stream := decompress; ep_values := values |} in
  removeTrailingSemi text = text /\
  (exists new,
     calls (query self {| qp_base := base; qp_query := text;
                          qp_format := format |} st).2 = calls st ++ new /\
     omap statement_of new =
       [(text +:+ FORMAT_CLAUSE) +:+ JS.nullish format "JSON"]) /\
  (exists new,
     calls (command self params st).2 = calls st ++ new /\
     omap statement_of new = [text]) /\
  (exists new,
     calls (exec self params st).2 = calls st ++ new /\
     omap statement_of new = [text]).
Proof.
  intros Hall params.
  pose proof (removeTrailingSemi_all_semi text Hall) as Hkeep.
  pose proof (trim_all_semi text Hall) as Htrim.
  split; [exact Hkeep|]. split; [|split].
  - destruct (query_sends self {| qp_base := base; qp_query := text;
                                  qp_format := format |} st)
      as (new & Hcalls & Hstmt & _).
    exists new. split; [exact Hcalls|].
    rewrite Hstmt. unfold formatQuery. cbn [qp_query qp_format].
    now rewrite Htrim, Hkeep.
  - destruct (command_sends self params st) as (new & Hcalls & Hstmt & _).
    exists new. split; [exact Hcalls|].
    rewrite Hstmt. cbn [params ep_query]. now rewrite Htrim, Hkeep.
  - destruct (exec_sends self params st) as (new & Hcalls & Hstmt & _).
    exists new. split; [exact Hcalls|].
    rewrite Hstmt. cbn [params ep_query]. now rewrite Htrim, Hkeep.
Qed.

End Claims.

(** C1. The two texts of the claim lose their trailing run, but the text
    [";;;"], which ends with separators and whose maximal trailing run is
    the whole text, is returned whole where the trim of the specification
    gives the empty text. *)
Theorem removeTrailingSemi_keeps_run_of_separators :
  removeTrailingSemi "SELECT 1;;;" = "SELECT 1" /\
  removeTrailingSemi "SELECT 1;x;" = "SELECT 1;x" /\
  ends_with_semi ";;;" = true /\
  strip_trailing_run ";;;" = "" /\
  removeTrailingSemi ";;;" = ";;;" /\
  removeTrailingSemi ";;;" <> strip_trailing_run ";;;".
Proof. repeat split. discriminate. Qed.

(** * The theorems at the concrete client *)

Section Witnesses.
Import Sample.
#[local] Existing Instance Sample.types.

Lemma insert_except_default_format_order_witness :
  isEmptyArray oneRow = false /\
  calls (insert (client up)
           {| ip_base := noParams; ip_table := "t";
              ip_values := oneRow; ip_format := None;
              ip_columns := Some (ColumnsExcept ["b"]) |} start).2
  = [CallValidateInsertValues oneRow "JSONCompactEachRow";
     CallEncodeValues oneRow "JSONCompactEachRow";
     CallConnInsert
       {| ci_query := "INSERT INTO t (* EXCEPT (b)) FORMAT JSONCompactEachRow";
          ci_values := ";";
          ci_params := withClientQueryParams (client up) noParams |}].
Proof.
  split; [reflexivity|].
  destruct (insert_except_default_format_order (client up) noParams
              oneRow start eq_refl) as (_ & _ & Hreached).
  exact (Hreached 0%nat 0%nat ";" eq_refl eq_refl).
Defined.

Lemma ping_never_raises_witness :
  (forall w, exists r w',
     conn_ping (connection (client down)) w = (Returned r, w')) /\
  (ping (client down) start).1 = Returned (PingFailure refused).
Proof.
  assert (Hcontract : forall w, exists r w',
            conn_ping (connection (client down)) w = (Returned r, w'))
    by (intros w; exists (PingFailure refused), (S w); reflexivity).
  split; [exact Hcontract|].
  destruct (ping_never_raises (client down) Hcontract start) as (_ & Hfail).
  exact (Hfail refused 1%nat eq_refl).
Defined.

Lemma all_separators_text_kept_witness :
  all_semi ";;;" = true /\
  removeTrailingSemi ";;;" = ";;;" /\
  exists new,
    calls (command (client up)
             {| ep_base := noParams; ep_query := ";;;";
                ep_decompress_response_stream := None;
                ep_values := None |} start).2 = calls start ++ new /\
    omap statement_of new = [";;;"].
Proof.
  split; [reflexivity|].
  destruct (all_separators_text_kept (client up) noParams ";;;" None None
              None start eq_refl) as (Hkeep & _ & Hcommand & _).
  split; [exact Hkeep|exact Hcommand].
Defined.

End Witnesses.


(** * Further properties of the statement formatter *)

Section TrailingRun.

Lemma semis_app m n : semis (m + n) = semis m +:+ semis n.
Proof.
  induction m as [|m IH]; [reflexivity|].
  cbn [Nat.add semis]. now rewrite append_cons, IH.
Qed.

Lemma semis_snoc n : semis (S n) = semis n +:+ String semi "".
Proof.
  replace (S n) with (n + 1)%nat by lia. apply semis_app.
Qed.

Lemma ends_with_semi_snoc p c :
  ends_with_semi (p +:+ String c "") = bool_decide (c = semi).
Proof.
  induction p as [|a p IH]; [reflexivity|].
  rewrite append_cons. cbn [ends_with_semi]. rewrite IH.
  destruct p; reflexivity.
Qed.

Lemma ends_with_semi_run p n : ends_with_semi (p +:+ semis (S n)) = true.
Proof.
  rewrite semis_snoc, <- append_assoc, ends_with_semi_snoc.
  now apply bool_decide_eq_true_2.
Qed.

(** A text that does not end with the separator is empty or ends with
    another code unit. *)
Lemma no_trailing_semi_shape s :
  ends_with_semi s = false ->
  s = "" \/ exists p c, c <> semi /\ s = p +:+ String c "".
Proof.
  intros Hs.
  destruct (trailing_run_decompose s) as [Hall | (p & c & n & Hc & ->)].
  - left. rewrite (all_semi_eq s Hall) in *.
    destruct (String.length s) as [|n]; [reflexivity|].
    rewrite <- (append_nil (semis (S n))), ends_with_semi_run in Hs.
    discriminate Hs.
  - right. exists p, c. split; [assumption|].
    destruct n as [|n]; [reflexivity|].
    replace (p +:+ String c (semis (S n)))
      with ((p +:+ String c "") +:+ semis (S n)) in Hs
      by (now rewrite append_assoc).
    rewrite ends_with_semi_run in Hs. discriminate Hs.
Qed.

(** X1. Trimming twice is trimming once. *)
Theorem removeTrailingSemi_idempotent (s : string) :
  removeTrailingSemi (removeTrailingSemi s) = removeTrailingSemi s.
Proof.
  destruct (trailing_run_decompose s) as [Hall | (p & c & n & Hc & ->)].
  - now rewrite !(removeTrailingSemi_all_semi s Hall).
  - rewrite removeTrailingSemi_last_non_semi by assumption.
    now apply (removeTrailingSemi_last_non_semi p c 0).
Qed.

(** X2. A text that does not end with [';'], the empty text included, is
    returned as it is. *)
Theorem removeTrailingSemi_without_trailing_separator (s : string) :
  ends_with_semi s = false -> removeTrailingSemi s = s.
Proof.
  intros Hs.
  destruct (no_trailing_semi_shape s Hs) as [-> | (p & c & Hc & ->)];
    [reflexivity|].
  now apply (removeTrailingSemi_last_non_semi p c 0).
Qed.

(** X3. On a text with a code unit other than [';'] the result does not
    end with [';'], the input is the result followed by separators only,
    and the result is the text without its maximal trailing run. *)
Theorem removeTrailingSemi_strips_whole_run (s : string) :
  all_semi s = false ->
  ends_with_semi (removeTrailingSemi s) = false /\
  (exists n, s = removeTrailingSemi s +:+ semis n) /\
  removeTrailingSemi s = strip_trailing_run s.
Proof.
  intros Hs.
  destruct (trailing_run_decompose s) as [Hall | (p & c & n & Hc & ->)];
    [congruence|].
  rewrite removeTrailingSemi_last_non_semi by assumption.
  split; [|split].
  - rewrite ends_with_semi_snoc. now apply bool_decide_eq_false_2.
  - exists n. now rewrite append_assoc.
  - now rewrite strip_trailing_run_last_non_semi.
Qed.

End TrailingRun.

Lemma removeTrailingSemi_without_trailing_separator_witness :
  ends_with_semi "SELECT ';'" = false /\
  removeTrailingSemi "SELECT ';'" = "SELECT ';'".
Proof.
  split; [reflexivity|].
  exact (removeTrailingSemi_without_trailing_separator "SELECT ';'" eq_refl).
Defined.

Lemma removeTrailingSemi_strips_whole_run_witness :
  all_semi "a;b;;" = false /\
  ends_with_semi (removeTrailingSemi "a;b;;") = false /\
  (exists n, "a;b;;" = removeTrailingSemi "a;b;;" +:+ semis n) /\
  removeTrailingSemi "a;b;;" = strip_trailing_run "a;b;;".
Proof.
  split; [reflexivity|].
  exact (removeTrailingSemi_strips_whole_run "a;b;;" eq_refl).
Defined.

(** ** White space around the statement *)

Section Trim.

Lemma trimStart_all_ws w : all_ws w = true -> JS.trimStart w = "".
Proof.
  induction w as [|c w IH]; [reflexivity|].
  cbn [all_ws JS.trimStart]. intros [Hc Hw]%andb_prop. rewrite Hc. auto.
Qed.

Lemma trimStart_ws_app w s :
  all_ws w = true -> JS.trimStart (w +:+ s) = JS.trimStart s.
Proof.
  induction w as [|c w IH]; [reflexivity|].
  cbn [all_ws]. intros [Hc Hw]%andb_prop.
  rewrite append_cons. cbn [JS.trimStart]. rewrite Hc. auto.
Qed.

Lemma trimEnd_all_ws w : all_ws w = true -> JS.trimEnd w = "".
Proof.
  induction w as [|c w IH]; [reflexivity|].
  cbn [all_ws JS.trimEnd]. intros [Hc Hw]%andb_prop.
  now rewrite (IH Hw), Hc.
Qed.

Lemma trimEnd_app_ws s w :
  all_ws w = true -> JS.trimEnd (s +:+ w) = JS.trimEnd s.
Proof.
  intros Hw. induction s as [|c s IH].
  - rewrite append_nil. now apply trimEnd_all_ws.
  - rewrite append_cons. cbn [JS.trimEnd]. now rewrite IH.
Qed.

Lemma trimEnd_snoc p c :
  JS.isWhiteSpace c = false ->
  JS.trimEnd (p +:+ String c "") = p +:+ String c "".
Proof.
  intros Hc. induction p as [|a p IH].
  - rewrite append_nil. cbn [JS.trimEnd]. now rewrite Hc.
  - rewrite append_cons. cbn [JS.trimEnd]. rewrite IH.
    destruct p; reflexivity.
Qed.

Lemma trim_start_end_app_ws b w :
  all_ws w = true ->
  JS.trimEnd (JS.trimStart (b +:+ w)) = JS.trimEnd (JS.trimStart b).
Proof.
  intros Hw. induction b as [|a b IH].
  - rewrite append_nil. now rewrite (trimStart_all_ws w Hw).
  - rewrite append_cons. cbn [JS.trimStart].
    destruct (JS.isWhiteSpace a); [exact IH|].
    rewrite <- append_cons. now apply trimEnd_app_ws.
Qed.

(** [trim()] does not see the white space around a text. *)
Lemma trim_surrounding w1 b w2 :
  all_ws w1 = true -> all_ws w2 = true ->
  JS.trim (w1 +:+ b +:+ w2) = JS.trim b.
Proof.
  intros H1 H2. unfold JS.trim.
  rewrite (trimStart_ws_app w1 _ H1). now apply trim_start_end_app_ws.
Qed.

Lemma length_trimStart_le s :
  (String.length (JS.trimStart s) <= String.length s)%nat.
Proof.
  induction s as [|c s IH]; [reflexivity|].
  cbn [JS.trimStart]. destruct (JS.isWhiteSpace c); cbn [String.length]; lia.
Qed.

Lemma length_trimEnd_le s :
  (String.length (JS.trimEnd s) <= String.length s)%nat.
Proof.
  induction s as [|c s IH]; [reflexivity|].
  cbn [JS.trimEnd]. destruct (JS.trimEnd s) as [|a r].
  - destruct (JS.isWhiteSpace c); cbn [String.length]; lia.
  - cbn [String.length] in *. lia.
Qed.

Lemma trimStart_fixed_head a s :
  JS.trimStart (String a s) = String a s -> JS.isWhiteSpace a = false.
Proof.
  cbn [JS.trimStart]. destruct (JS.isWhiteSpace a); [|reflexivity].
  intros Heq. pose proof (length_trimStart_le s) as Hle.
  rewrite Heq in Hle. cbn [String.length] in Hle. lia.
Qed.

(** A text that [trim()] returns as it is has no white space at either
    end. *)
Lemma trim_fixed q :
  JS.trim q = q -> JS.trimStart q = q /\ JS.trimEnd q = q.
Proof.
  unfold JS.trim. intros Hq.
  assert (Hlen : String.length (JS.trimStart q) = String.length q).
  { pose proof (length_trimEnd_le (JS.trimStart q)) as H1.
    pose proof (length_trimStart_le q) as H2. rewrite Hq in H1. lia. }
  assert (Hstart : JS.trimStart q = q).
  { destruct q as [|a q]; [reflexivity|].
    cbn [JS.trimStart] in *. destruct (JS.isWhiteSpace a); [|reflexivity].
    pose proof (length_trimStart_le q) as H3.
    cbn [String.length] in Hlen. lia. }
  split; [exact Hstart|]. now rewrite Hstart in Hq.
Qed.

Lemma trimStart_app_fixed q y :
  JS.trimStart q = q -> q <> "" -> JS.trimStart (q +:+ y) = q +:+ y.
Proof.
  destruct q as [|a q]; [congruence|]. intros Hq _.
  rewrite append_cons. cbn [JS.trimStart].
  now rewrite (trimStart_fixed_head a q Hq).
Qed.

Lemma trim_app_semis q n :
  JS.trim q = q -> q <> "" -> JS.trim (q +:+ semis n) = q +:+ semis n.
Proof.
  intros Hq Hne. destruct (trim_fixed q Hq) as [Hstart Hend].
  unfold JS.trim. rewrite trimStart_app_fixed by assumption.
  destruct n as [|n]; [now rewrite append_empty_r|].
  rewrite semis_snoc, <- append_assoc.
  apply trimEnd_snoc, isWhiteSpace_semi.
Qed.

Lemma removeTrailingSemi_app_semis q n :
  all_semi q = false ->
  removeTrailingSemi (q +:+ semis n) = removeTrailingSemi q.
Proof.
  intros Hq.
  destruct (trailing_run_decompose q) as [Hall | (p & c & m & Hc & ->)];
    [congruence|].
  rewrite append_assoc, append_cons, <- semis_app.
  now rewrite !removeTrailingSemi_last_non_semi.
Qed.

Lemma all_ws_snoc w :
  all_ws w = true -> w <> "" ->
  exists w' c, JS.isWhiteSpace c = true /\ w = w' +:+ String c "".
Proof.
  induction w as [|a w IH]; [congruence|].
  cbn [all_ws]. intros [Ha Hw]%andb_prop _.
  destruct w as [|b w].
  - exists "", a. split; [assumption|reflexivity].
  - destruct (IH Hw) as (w' & c & Hc & Heq); [discriminate|].
    exists (String a w'), c. split; [assumption|].
    now rewrite append_cons, <- Heq.
Qed.

Lemma whitespace_not_semi c : JS.isWhiteSpace c = true -> c <> semi.
Proof. intros Hc ->. rewrite isWhiteSpace_semi in Hc. discriminate Hc. Qed.

(** X4. White space before and after the query text never reaches the
    statement: [formatQuery], and the trim of [command] and [exec], give
    what they give on the bare text. *)
Theorem statement_ignores_surrounding_whitespace
    (w1 q w2 format : string) :
  all_ws w1 = true -> all_ws w2 = true ->
  formatQuery (w1 +:+ q +:+ w2) format = formatQuery q format /\
  removeTrailingSemi (JS.trim (w1 +:+ q +:+ w2))
  = removeTrailingSemi (JS.trim q).
Proof.
  intros H1 H2. unfold formatQuery.
  now rewrite (trim_surrounding w1 q w2 H1 H2).
Qed.

(** X5. Separators at the end of a query text, and white space after
    them, never reach the statement: for a text without white space at its
    ends that is not made of [';'] only, [formatQuery] gives what it gives
    without them. *)
Theorem formatQuery_ignores_trailing_separators
    (q w format : string) (n : nat) :
  JS.trim q = q -> all_semi q = false -> all_ws w = true ->
  formatQuery (q +:+ semis n +:+ w) format = formatQuery q format.
Proof.
  intros Hq Hsemi Hw. unfold formatQuery.
  assert (Hne : q <> "") by (intros ->; discriminate Hsemi).
  rewrite <- append_assoc. unfold JS.trim at 1.
  rewrite (trim_start_end_app_ws (q +:+ semis n) w Hw).
  fold (JS.trim (q +:+ semis n)).
  rewrite trim_app_semis by assumption. rewrite Hq.
  now rewrite removeTrailingSemi_app_semis.
Qed.

(** X6. White space between the end of the query and its trailing
    separators stays in the statement: the text is trimmed before the
    separators are removed, not after. *)
Theorem formatQuery_keeps_whitespace_before_separators
    (q w format : string) (n : nat) :
  JS.trim q = q -> q <> "" -> all_ws w = true -> w <> "" ->
  formatQuery (q +:+ w +:+ semis (S n)) format
  = ((q +:+ w) +:+ FORMAT_CLAUSE) +:+ format.
Proof.
  intros Hq Hne Hw Hwne. unfold formatQuery.
  destruct (trim_fixed q Hq) as [Hstart _].
  assert (Htrim : JS.trim (q +:+ w +:+ semis (S n)) = q +:+ w +:+ semis (S n)).
  { unfold JS.trim. rewrite trimStart_app_fixed by assumption.
    rewrite semis_snoc, <- !append_assoc.
    apply trimEnd_snoc, isWhiteSpace_semi. }
  rewrite Htrim.
  destruct (all_ws_snoc w Hw Hwne) as (w' & c & Hc & ->).
  replace (q +:+ (w' +:+ String c "") +:+ semis (S n))
    with ((q +:+ w') +:+ String c (semis (S n)))
    by (now rewrite !append_assoc).
  rewrite removeTrailingSemi_last_non_semi by now apply whitespace_not_semi.
  now rewrite !append_assoc.
Qed.

End Trim.

Lemma statement_ignores_surrounding_whitespace_witness :
  all_ws "  " = true /\ all_ws " " = true /\
  formatQuery ("  " +:+ "SELECT 1;" +:+ " ") "CSV" = formatQuery "SELECT 1;" "CSV".
Proof.
  split; [reflexivity|]. split; [reflexivity|].
  exact (proj1 (statement_ignores_surrounding_whitespace
                  "  " "SELECT 1;" " " "CSV" eq_refl eq_refl)).
Defined.

Lemma formatQuery_ignores_trailing_separators_witness :
  JS.trim "SELECT 1" = "SELECT 1" /\ all_semi "SELECT 1" = false /\
  all_ws " " = true /\
  formatQuery ("SELECT 1" +:+ semis 2 +:+ " ") "CSV" = formatQuery "SELECT 1" "CSV".
Proof.
  split; [reflexivity|]. split; [reflexivity|]. split; [reflexivity|].
  exact (formatQuery_ignores_trailing_separators "SELECT 1" " " "CSV" 2
           eq_refl eq_refl eq_refl).
Defined.

Lemma formatQuery_keeps_whitespace_before_separators_witness :
  JS.trim "SELECT 1" = "SELECT 1" /\ "SELECT 1" <> "" /\
  all_ws " " = true /\ " " <> "" /\
  formatQuery ("SELECT 1" +:+ " " +:+ semis 1) "CSV"
  = (("SELECT 1" +:+ " ") +:+ FORMAT_CLAUSE) +:+ "CSV".
Proof.
  assert (H1 : "SELECT 1" <> "") by discriminate.
  assert (H2 : " " <> "") by discriminate.
  split; [reflexivity|]. split; [exact H1|]. split; [reflexivity|].
  split; [exact H2|].
  exact (formatQuery_keeps_whitespace_before_separators "SELECT 1" " " "CSV" 0
           eq_refl H1 eq_refl H2).
Defined.

(** * Further properties of the operations *)

Section MoreOperations.
Context `{T : Types}.

Lemma close_run (self : ClickHouseClient) (st : State) :
  close self st =
    ((conn_close (connection self) (world st)).1,
     {| world := (conn_close (connection self) (world st)).2;
        calls := calls st ++ [CallConnClose] |}).
Proof.
  unfold close, invoke. now destruct (conn_close (connection self) (world st)).
Qed.

Lemma isEmptyArray_true (values : InsertValues) :
  isEmptyArray values = true <-> values = ValuesArray [].
Proof.
  split; [|now intros ->].
  destruct values as [[|row rows]| |]; simpl; congruence.
Qed.

(** X7. When the connection's [query] raises, [query] raises the same
    value, the world is as the connection left it, and the result-set
    factory is not called. *)
Theorem query_connection_error_surfaces
    (self : ClickHouseClient) (params : QueryParams) (st : State)
    (e : Error) (w : World) :
  let req :=
    {| cq_query := formatQuery (qp_query params)
                     (JS.nullish (qp_format params) "JSON");
       cq_params := withClientQueryParams self (qp_base params) |} in
  conn_query (connection self) req (world st) = (Raised e, w) ->
  query self params st
  = (Raised e, {| world := w; calls := calls st ++ [CallConnQuery req] |}).
Proof.
  intros req Hconn. unfold query, bind, invoke. fold req. now rewrite Hconn.
Qed.


(** X9. When the connection answers a [query], the result set is made
    from the stream, query id and response headers of the answer, and its
    error callback carries the statement that was sent, the query id of the
    answer and the effective session id and role. *)
Theorem query_result_set_from_answer
    (self : ClickHouseClient) (params : QueryParams) (st : State)
    (r : ConnQueryResult) (w : World) :
  let format := JS.nullish (qp_format params) "JSON" in
  let effective := withClientQueryParams self (qp_base params) in
  let req :=
    {| cq_query := formatQuery (qp_query params) format;
       cq_params := effective |} in
  let onError :=
    {| cb_session_id := session_id effective; cb_role := role effective;
       cb_query := cq_query req; cb_query_id := qr_query_id r |} in
  let make :=
    makeResultSet self (qr_stream r) format (qr_query_id r) onError
      (qr_response_headers r) w in
  conn_query (connection self) req (world st) = (Returned r, w) ->
  query self params st
  = (make.1,
     {| world := make.2;
        calls := calls st ++
          [CallConnQuery req;
           CallMakeResultSet (qr_stream r) format (qr_query_id r) onError
             (qr_response_headers r)] |}).
Proof.
  intros format effective req onError make Hconn.
  unfold query, bind, invoke. fold format. fold effective. fold req.
  rewrite Hconn. cbn [world calls].
  unfold make, onError. cbn [cq_query req].
  destruct (makeResultSet self _ _ _ _ _ w) as [o w'].
  now rewrite <- app_assoc.
Qed.

(** X10. [command] and [exec] return or raise what the connection
    returns or raises, leave the world as the connection left it, and make
    that one call and no other. *)
Theorem command_exec_outcome_is_connection_outcome
    (self : ClickHouseClient) (params : ExecParams) (st : State) :
  let statement := removeTrailingSemi (JS.trim (ep_query params)) in
  let effective := withClientQueryParams self (ep_base params) in
  let creq := {| cq_query := statement; cq_params := effective |} in
  let ereq :=
    {| ce_query := statement; ce_values := ep_values params;
       ce_decompress_response_stream :=
         match ep_decompress_response_stream params with
         | Some b => b
         | None => true
         end;
       ce_params := effective |} in
  (command self params st).1 = (conn_command (connection self) creq (world st)).1 /\
  world (command self params st).2
    = (conn_command (connection self) creq (world st)).2 /\
  calls (command self params st).2 = calls st ++ [CallConnCommand creq] /\
  (exec self params st).1 = (conn_exec (connection self) ereq (world st)).1 /\
  world (exec self params st).2
    = (conn_exec (connection self) ereq (world st)).2 /\
  calls (exec self params st).2 = calls st ++ [CallConnExec ereq].
Proof.
  intros statement effective creq ereq.
  rewrite command_run, exec_run. repeat split.
Qed.

(** X11. [exec] asks the connection not to decompress the response
    exactly when the caller passed [false]; a missing flag means
    decompress; the caller's values, or their absence, are forwarded. *)
Theorem exec_decompress_defaults_to_true
    (self : ClickHouseClient) (params : ExecParams) (st : State) :
  exists req,
    calls (exec self params st).2 = calls st ++ [CallConnExec req] /\
    (ce_decompress_response_stream req = false <->
     ep_decompress_response_stream params = Some false) /\
    ce_values req = ep_values params.
Proof.
  rewrite exec_run. eexists. split; [reflexivity|]. split; [|reflexivity].
  cbn [ce_decompress_response_stream].
  destruct (ep_decompress_response_stream params) as [[]|]; simpl;
    split; congruence.
Qed.

End MoreOperations.

Section MoreOperationsAtSample.
#[local] Existing Instance Sample.types.

Lemma query_connection_error_surfaces_witness :
  query (Sample.client Sample.down)
    {| qp_base := Sample.noParams; qp_query := "SELECT 1"; qp_format := None |}
    Sample.start
  = (Raised Sample.refused,
     {| world := 1%nat;
        calls :=
          [CallConnQuery
             {| cq_query := formatQuery "SELECT 1" "JSON";
                cq_params :=
                  withClientQueryParams (Sample.client Sample.down)
                    Sample.noParams |}] |}).
Proof.
  exact (query_connection_error_surfaces (Sample.client Sample.down)
           {| qp_base := Sample.noParams; qp_query := "SELECT 1";
              qp_format := None |}
           Sample.start Sample.refused 1%nat eq_refl).
Defined.

Lemma query_result_set_from_answer_witness :
  (query (Sample.client Sample.up)
     {| qp_base := Sample.noParams; qp_query := "SELECT 1";
        qp_format := Some "CSV" |}
     Sample.start).1
  = Returned (formatQuery "SELECT 1" "CSV").
Proof.
  exact (f_equal fst
           (query_result_set_from_answer (Sample.client Sample.up)
              {| qp_base := Sample.noParams; qp_query := "SELECT 1";
                 qp_format := Some "CSV" |}
              Sample.start
              {| qr_stream := formatQuery "SELECT 1" "CSV"; qr_query_id := "q";
                 qr_response_headers := ∅ |}
              1%nat eq_refl)).
Defined.

End MoreOperationsAtSample.

(** * Further properties of [insert] *)

Section MoreInsert.
Context `{T : Types}.

(** X12. When the encoder rejects the values, [insert] raises what the
    encoder raised after that one call: nothing is encoded and the
    connection is not reached. *)
Theorem insert_validation_error_stops_before_encoding
    (self : ClickHouseClient) (params : InsertParams) (st : State)
    (e : Error) (w : World) :
  let format := JS.or_string (ip_format params) "JSONCompactEachRow" in
  isEmptyArray (ip_values params) = false ->
  validateInsertValues (valuesEncoder self) (ip_values params) format (world st)
    = (Raised e, w) ->
  insert self params st
  = (Raised e,
     {| world := w;
        calls := calls st ++
          [CallValidateInsertValues (ip_values params) format] |}).
Proof.
  intros format Hne Hv. rewrite insert_run by assumption.
  fold format. now rewrite Hv.
Qed.

(** X13. When the encoder accepts the values but fails to encode them,
    [insert] raises what the encoder raised and the connection is not
    reached. *)
Theorem insert_encoding_error_stops_before_connection
    (self : ClickHouseClient) (params : InsertParams) (st : State)
    (e : Error) (w1 w2 : World) :
  let format := JS.or_string (ip_format params) "JSONCompactEachRow" in
  isEmptyArray (ip_values params) = false ->
  validateInsertValues (valuesEncoder self) (ip_values params) format (world st)
    = (Returned tt, w1) ->
  encodeValues (valuesEncoder self) (ip_values params) format w1
    = (Raised e, w2) ->
  insert self params st
  = (Raised e,
     {| world := w2;
        calls := calls st ++
          [CallValidateInsertValues (ip_values params) format;
           CallEncodeValues (ip_values params) format] |}).
Proof.
  intros format Hne Hv He. rewrite insert_run by assumption.
  fold format. now rewrite Hv, He.
Qed.

(** X14. When the connection's [insert] raises, [insert] raises the same
    value; when it answers, the result is the answer with [executed: true]:
    the query id, summary and response headers are the connection's. *)
Theorem insert_outcome_from_connection
    (self : ClickHouseClient) (params : InsertParams) (st : State)
    (payload : Encoded) (w1 w2 : World) :
  let format := JS.or_string (ip_format params) "JSONCompactEachRow" in
  let req :=
    {| ci_query := getInsertQuery params format; ci_values := payload;
       ci_params := withClientQueryParams self (ip_base params) |} in
  isEmptyArray (ip_values params) = false ->
  validateInsertValues (valuesEncoder self) (ip_values params) format (world st)
    = (Returned tt, w1) ->
  encodeValues (valuesEncoder self) (ip_values params) format w1
    = (Returned payload, w2) ->
  (forall e w3,
     conn_insert (connection self) req w2 = (Raised e, w3) ->
     (insert self params st).1 = Raised e) /\
  (forall result w3,
     conn_insert (connection self) req w2 = (Returned result, w3) ->
     (insert self params st).1
     = Returned {| executed := true; ir_query_id := cr_query_id result;
                   ir_summary := cr_summary result;
                   ir_response_headers := cr_response_headers result |}).
Proof.
  intros format req Hne Hv He. rewrite insert_run by assumption.
  fold format. rewrite Hv, He. fold req.
  split; intros x w3 Hconn; now rewrite Hconn.
Qed.

(** X15. Of an [insert] that returns, [executed] is [false] exactly when
    the values are an empty array; then the query id is empty and nothing
    was called; otherwise the last call made is the connection's [insert]. *)
Theorem insert_executed_iff_not_skipped
    (self : ClickHouseClient) (params : InsertParams) (st st' : State)
    (r : InsertResult) :
  insert self params st = (Returned r, st') ->
  (executed r = false <-> ip_values params = ValuesArray []) /\
  (executed r = false -> ir_query_id r = "" /\ st' = st) /\
  (executed r = true ->
   exists before req, calls st' = before ++ [CallConnInsert req]).
Proof.
  intros Hrun. rewrite <- isEmptyArray_true.
  destruct (isEmptyArray (ip_values params)) eqn:He.
  - rewrite insert_skipped in Hrun by assumption.
    injection Hrun as <- <-. cbn [executed ir_query_id].
    repeat split; congruence.
  - rewrite insert_run in Hrun by assumption.
    destruct (validateInsertValues _ _ _ _) as [[[]|e] w1];
      [|discriminate Hrun].
    destruct (encodeValues _ _ _ _) as [[payload|e] w2]; [|discriminate Hrun].
    destruct (conn_insert _ _ _) as [[result|e] w3]; [|discriminate Hrun].
    injection Hrun as <- <-. cbn [executed calls].
    split; [split; congruence|]. split; [congruence|]. intros _.
    eexists (calls st ++ [_; _]), _. now rewrite <- app_assoc.
Qed.


(** X17. For [insert] an empty string as format counts as no format; for
    [query] it does not: the statement then ends with [FORMAT] and nothing
    after it. *)
Theorem empty_format_defaulted_by_insert_only
    (self : ClickHouseClient) (base : BaseQueryParams) (table text : string)
    (values : InsertValues) (columns : option InsertColumns) (st : State) :
  insert self {| ip_base := base; ip_table := table; ip_values := values;
                 ip_format := Some ""; ip_columns := columns |} st
  = insert self {| ip_base := base; ip_table := table; ip_values := values;
                   ip_format := None; ip_columns := columns |} st /\
  exists new,
    calls (query self {| qp_base := base; qp_query := text;
                         qp_format := Some "" |} st).2 = calls st ++ new /\
    omap statement_of new =
      [removeTrailingSemi (JS.trim text) +:+ FORMAT_CLAUSE].
Proof.
  split; [reflexivity|].
  destruct (query_sends self {| qp_base := base; qp_query := text;
                                qp_format := Some "" |} st)
    as (new & Hcalls & Hstmt & _).
  exists new. split; [exact Hcalls|]. rewrite Hstmt.
  unfold formatQuery. cbn [qp_query qp_format JS.nullish].
  now rewrite append_empty_r.
Qed.

(** X18. The table name reaches the statement without the white space
    around it. *)
Theorem getInsertQuery_trims_table
    (base : BaseQueryParams) (w1 table w2 format : string)
    (values : InsertValues) (fmt : option string)
    (columns : option InsertColumns) :
  all_ws w1 = true -> all_ws w2 = true ->
  getInsertQuery {| ip_base := base; ip_table := w1 +:+ table +:+ w2;
                    ip_values := values; ip_format := fmt;
                    ip_columns := columns |} format
  = getInsertQuery {| ip_base := base; ip_table := table;
                      ip_values := values; ip_format := fmt;
                      ip_columns := columns |} format.
Proof.
  intros H1 H2. unfold getInsertQuery. cbn [ip_table ip_columns].
  now rewrite (trim_surrounding w1 table w2 H1 H2).
Qed.

End MoreInsert.

Section MoreInsertAtSample.
#[local] Existing Instance Sample.types.

Lemma insert_validation_error_stops_before_encoding_witness :
  isEmptyArray Faulty.streamed = false /\
  calls (insert (Sample.client Sample.up) (Faulty.exceptB Faulty.streamed)
           Sample.start).2
  = [CallValidateInsertValues Faulty.streamed "JSONCompactEachRow"].
Proof.
  split; [reflexivity|].
  exact (f_equal (fun x => calls x.2)
           (insert_validation_error_stops_before_encoding
              (Sample.client Sample.up) (Faulty.exceptB Faulty.streamed) Sample.start
              "Cannot use a stream or an object with this encoder" 0%nat
              eq_refl eq_refl)).
Defined.

Lemma insert_encoding_error_stops_before_connection_witness :
  isEmptyArray Sample.oneRow = false /\
  calls (insert Faulty.client (Faulty.exceptB Sample.oneRow) Sample.start).2
  = [CallValidateInsertValues Sample.oneRow "JSONCompactEachRow";
     CallEncodeValues Sample.oneRow "JSONCompactEachRow"].
Proof.
  split; [reflexivity|].
  exact (f_equal (fun x => calls x.2)
           (insert_encoding_error_stops_before_connection
              Faulty.client (Faulty.exceptB Sample.oneRow) Sample.start
              "Cannot encode" 0%nat 0%nat eq_refl eq_refl eq_refl)).
Defined.

Lemma insert_outcome_from_connection_witness :
  (insert (Sample.client Sample.down) (Faulty.exceptB Sample.oneRow) Sample.start).1
  = Raised Sample.refused /\
  (insert (Sample.client Sample.up) (Faulty.exceptB Sample.oneRow) Sample.start).1
  = Returned {| executed := true; ir_query_id := "q"; ir_summary := Some 1%nat;
                ir_response_headers := ∅ |}.
Proof.
  split.
  - exact (proj1 (insert_outcome_from_connection (Sample.client Sample.down)
                    (Faulty.exceptB Sample.oneRow) Sample.start ";" 0%nat 0%nat
                    eq_refl eq_refl eq_refl)
             Sample.refused 1%nat eq_refl).
  - exact (proj2 (insert_outcome_from_connection (Sample.client Sample.up)
                    (Faulty.exceptB Sample.oneRow) Sample.start ";" 0%nat 0%nat
                    eq_refl eq_refl eq_refl)
             {| cr_query_id := "q"; cr_summary := Some 1%nat;
                cr_response_headers := ∅ |} 1%nat eq_refl).
Defined.

Lemma insert_executed_iff_not_skipped_witness :
  insert (Sample.client Sample.up) (Faulty.exceptB Sample.oneRow) Sample.start
  = (Returned {| executed := true; ir_query_id := "q";
                 ir_summary := Some 1%nat; ir_response_headers := ∅ |},
     (insert (Sample.client Sample.up) (Faulty.exceptB Sample.oneRow)
        Sample.start).2) /\
  exists before req,
    calls (insert (Sample.client Sample.up) (Faulty.exceptB Sample.oneRow)
             Sample.start).2 = before ++ [CallConnInsert req].
Proof.
  split; [reflexivity|].
  exact (proj2 (proj2 (insert_executed_iff_not_skipped
                         (Sample.client Sample.up)
                         (Faulty.exceptB Sample.oneRow)
                         Sample.start _ _ eq_refl)) eq_refl).
Defined.


Lemma getInsertQuery_trims_table_witness :
  all_ws " " = true /\
  getInsertQuery {| ip_base := Sample.noParams; ip_table := " " +:+ "t" +:+ " ";
                    ip_values := Sample.oneRow; ip_format := None;
                    ip_columns := None |} "CSV"
  = getInsertQuery {| ip_base := Sample.noParams; ip_table := "t";
                      ip_values := Sample.oneRow; ip_format := None;
                      ip_columns := None |} "CSV".
Proof.
  split; [reflexivity|].
  exact (getInsertQuery_trims_table Sample.noParams " " "t" " " "CSV"
           Sample.oneRow None None eq_refl eq_refl).
Defined.

End MoreInsertAtSample.

(** * Further properties of the effective parameters, [ping] and [close] *)

Section MoreParams.
Context `{T : Types}.

(** X19. Applying the client's defaults to parameters that already carry
    them changes nothing. *)
Theorem withClientQueryParams_idempotent
    (self : ClickHouseClient) (params : BaseQueryParams) :
  withClientQueryParams self (withClientQueryParams self params)
  = withClientQueryParams self params.
Proof.
  unfold withClientQueryParams. cbn. f_equal.
  - f_equal. unfold JS.spread. apply map_eq. intros k.
    rewrite !lookup_union.
    destruct (default ∅ (clickhouse_settings params) !! k),
      (clientClickHouseSettings self !! k); reflexivity.
  - destruct (session_id params), (sessionId self); reflexivity.
  - destruct (role params), (clientRole self); reflexivity.
Qed.

(** X20. The effective settings are always present and have the keys of
    the client's settings and of the call's, and no other; without
    per-call settings they are the client's, and for a client without
    settings they are the call's. *)
Theorem effective_settings_keys
    (self : ClickHouseClient) (params : BaseQueryParams) :
  let client := clientClickHouseSettings self in
  let call := default ∅ (clickhouse_settings params) in
  exists effective,
    clickhouse_settings (withClientQueryParams self params) = Some effective /\
    dom effective = dom client ∪ dom call /\
    (call = ∅ -> effective = client) /\
    (client = ∅ -> effective = call).
Proof.
  intros client call. exists (JS.spread client call).
  split; [reflexivity|]. unfold JS.spread. split; [|split].
  - rewrite dom_union_L. apply (comm_L (∪)).
  - intros ->. apply (left_id_L ∅ (∪)).
  - intros ->. apply (right_id_L ∅ (∪)).
Qed.

(** X21. [ping] has no handler of its own: when the connection's probe
    raises, [ping] raises the same value. *)
Theorem ping_raises_what_connection_raises
    (self : ClickHouseClient) (st : State) (e : Error) (w : World) :
  conn_ping (connection self) (world st) = (Raised e, w) ->
  ping self st
  = (Raised e, {| world := w; calls := calls st ++ [CallConnPing] |}).
Proof. intros Hping. rewrite ping_run. now rewrite Hping. Qed.

(** X22. The client keeps no record of [close]: after a [close] that
    returned, an operation reaches the connection as before. *)
Theorem ping_after_close_reaches_connection
    (self : ClickHouseClient) (st : State) (w : World) :
  conn_close (connection self) (world st) = (Returned tt, w) ->
  bind (close self) (fun _ => ping self) st
  = ((conn_ping (connection self) w).1,
     {| world := (conn_ping (connection self) w).2;
        calls := calls st ++ [CallConnClose; CallConnPing] |}).
Proof.
  intros Hclose. unfold bind. rewrite close_run, Hclose. cbn [fst snd].
  rewrite ping_run. cbn [world calls]. now rewrite <- app_assoc.
Qed.

(** X23. No operation calls the connection twice: [query], [command],
    [exec], [ping] and [close] call it once, [insert] at most once. *)
Theorem one_connection_call_per_operation (self : ClickHouseClient) (st : State) :
  let connection_calls (st' : State) (n : nat) :=
    exists new,
      calls st' = calls st ++ new /\
      List.length (List.filter is_connection_call new) = n in
  (forall params, connection_calls (query self params st).2 1%nat) /\
  (forall params, connection_calls (command self params st).2 1%nat) /\
  (forall params, connection_calls (exec self params st).2 1%nat) /\
  connection_calls (ping self st).2 1%nat /\
  connection_calls (close self st).2 1%nat /\
  (forall params,
     connection_calls (insert self params st).2 0%nat \/
     connection_calls (insert self params st).2 1%nat).
Proof.
  intros connection_calls. unfold connection_calls. repeat split.
  - intros params.
    destruct (query_run self params st) as (rest & Hcalls & Hrest).
    eexists. split; [exact Hcalls|].
    now destruct Hrest as [-> | (s & q & cb & h & ->)].
  - intros params. rewrite command_run. now eexists.
  - intros params. rewrite exec_run. now eexists.
  - rewrite ping_run. now eexists.
  - rewrite close_run. now eexists.
  - intros params. destruct (isEmptyArray (ip_values params)) eqn:He.
    + left. rewrite insert_skipped by assumption. exists [].
      split; [now rewrite app_nil_r|reflexivity].
    + rewrite insert_run by assumption.
      destruct (validateInsertValues _ _ _ _) as [[[]|e] w1];
        [|left; now eexists].
      destruct (encodeValues _ _ _ _) as [[payload|e] w2];
        [|left; now eexists].
      right. destruct (conn_insert _ _ _) as [[result|e] w3]; now eexists.
Qed.

End MoreParams.

Section MoreParamsAtSample.
#[local] Existing Instance Sample.types.

Lemma ping_raises_what_connection_raises_witness :
  ping (Sample.client Faulty.raising) Sample.start
  = (Raised Faulty.broken, {| world := 1%nat; calls := [CallConnPing] |}).
Proof.
  exact (ping_raises_what_connection_raises (Sample.client Faulty.raising)
           Sample.start Faulty.broken 1%nat eq_refl).
Defined.

Lemma ping_after_close_reaches_connection_witness :
  conn_close (connection (Sample.client Sample.down)) (world Sample.start)
  = (Returned tt, 0%nat) /\
  (bind (close (Sample.client Sample.down))
     (fun _ => ping (Sample.client Sample.down)) Sample.start).1
  = Returned (PingFailure Sample.refused).
Proof.
  split; [reflexivity|].
  exact (f_equal fst
           (ping_after_close_reaches_connection (Sample.client Sample.down)
              Sample.start 0%nat eq_refl)).
Defined.

End MoreParamsAtSample.
